(** * Fx: the timing core of the MooTools effects (src/Effects/Fx.js)

    A shallow embedding of the [Fx] class: its fields, the methods [step],
    [set], [setNow], [compute], [start] and [stop], and the collaborators
    they call (clock, periodic timer, event emitter, chain queue, apply
    hook).  Every method is a computation in a small state monad over the
    instance and its environment; what the instance does to the outside
    (values applied, events fired, timers scheduled and cleared, chained
    actions invoked) is recorded, in order, in a trace.

    Numbers.  JavaScript numbers are idealised as exact rationals ([Q]);
    timestamps are the integer milliseconds returned by [$time()].

    Receiver.  There is one instance, [this]; a method that ends in
    [return this] is a computation of type [M unit], and the instance it
    returns is the one found in the final state.

    Callbacks.  The apply hook [increase] and the event listeners are
    supplied by the users of the class; they are taken to observe the
    instance, not to call back into it. *)

From Stdlib Require Import ZArith QArith Qround Lqa List Bool Lia.
Import ListNotations.

Set Implicit Arguments.

Module Fx.

(** ** Data model *)

(** The target handed to the constructor and used as payload of every
    event ([this.element]); only its identity matters here. *)
Definition Element := nat.

(** Handle of a periodic timer, as returned by [periodical]. *)
Definition handle := positive.

(** [options] (Fx.js lines 64-76). *)
Record Options := mkOptions {
  transition : Q -> Q;
  duration : Q;
  unit_ : option nat;                 (* [unit]; the name is taken by the unit type *)
  wait : bool;
  fps : Q
}.

(** The four events of the class. *)
Inductive event := onStart | onSet | onComplete | onCancel.

(** A deferred follow-up action: a function queued with [chain] and later
    invoked with the instance as receiver.  Its body is a script of calls
    on the instance, as in the class documentation
    ([myFx.start(1,0).chain(function(){ this.start(0,1); })]). *)
#[warnings="-register-all"]
Inductive call :=
| CStart (from to : Q)
| CStop (ignore : bool)
| CSet (to : Q)
| CChain (fn : list call).

Definition action := list call.

(** The instance: the fields the methods assign ([this.from], ...), the
    options, and the queue of the Chain mixin. *)
Record Fx := mkFx {
  element : Element;
  options : Options;
  from : Q;
  to : Q;
  change : Q;
  time : Z;
  delta : Q;
  now : Q;
  timer : option handle;
  chains : list action
}.

(** What the instance does to its environment, in program order. *)
Inductive obs :=
| Eased (p : Q)                                    (* options.transition(p) was evaluated *)
| Applied (v : Q)                                  (* increase() ran with this.now = v *)
| Fired (e : event) (payload : Element) (delay : option Z) (* fireEvent(e, payload[, delay]) *)
| Scheduled (h : handle) (interval : Z)            (* step.periodical(interval, this) gave h *)
| Cleared (h : handle)                             (* $clear(h) *)
| Called (fn : action).                            (* callChain invoked fn *)

(** The environment: the clock read by [$time()], the next free timer
    handle, and the trace. *)
Record World := mkWorld {
  clock : Z;
  next_handle : handle;
  trace : list obs
}.

Definition Sys := (Fx * World)%type.

(** Field updates ([this.f = v]). *)
Definition with_from (v : Q) (x : Fx) : Fx :=
  mkFx (element x) (options x) v (to x) (change x) (time x) (delta x) (now x) (timer x) (chains x).
Definition with_to (v : Q) (x : Fx) : Fx :=
  mkFx (element x) (options x) (from x) v (change x) (time x) (delta x) (now x) (timer x) (chains x).
Definition with_change (v : Q) (x : Fx) : Fx :=
  mkFx (element x) (options x) (from x) (to x) v (time x) (delta x) (now x) (timer x) (chains x).
Definition with_time (v : Z) (x : Fx) : Fx :=
  mkFx (element x) (options x) (from x) (to x) (change x) v (delta x) (now x) (timer x) (chains x).
Definition with_delta (v : Q) (x : Fx) : Fx :=
  mkFx (element x) (options x) (from x) (to x) (change x) (time x) v (now x) (timer x) (chains x).
Definition with_now (v : Q) (x : Fx) : Fx :=
  mkFx (element x) (options x) (from x) (to x) (change x) (time x) (delta x) v (timer x) (chains x).
Definition with_timer (v : option handle) (x : Fx) : Fx :=
  mkFx (element x) (options x) (from x) (to x) (change x) (time x) (delta x) (now x) v (chains x).
Definition with_chains (v : list action) (x : Fx) : Fx :=
  mkFx (element x) (options x) (from x) (to x) (change x) (time x) (delta x) (now x) (timer x) v.

(** ** The state monad of the methods *)

Definition M (A : Type) := Sys -> A * Sys.

Definition ret {A} (a : A) : M A := fun s => (a, s).
Definition bind {A B} (m : M A) (k : A -> M B) : M B :=
  fun s => let (a, s') := m s in k a s'.

Declare Scope fx_scope.
Delimit Scope fx_scope with fx.
Notation "x <- m ;; k" := (bind m (fun x => k))
  (at level 61, m at next level, right associativity) : fx_scope.
Notation "m ;; k" := (bind m (fun _ => k))
  (at level 61, right associativity) : fx_scope.
Local Open Scope fx_scope.

(** Final state of a computation. *)
Definition exec {A} (m : M A) (s : Sys) : Sys := snd (m s).

(** [this]: the current fields of the instance. *)
Definition this : M Fx := fun s => (fst s, s).
(** [this.f = v]. *)
Definition assign (f : Fx -> Fx) : M unit := fun s => (tt, (f (fst s), snd s)).
(** Append one observation to the trace. *)
Definition emit (o : obs) : M unit :=
  fun s => (tt, (fst s, mkWorld (clock (snd s)) (next_handle (snd s)) (trace (snd s) ++ [o]))).

(** ** Collaborators *)

(** Modelled from the spec: [$time()] is not part of the file; section
    4.1 reads it as "now()", the current timestamp in milliseconds. *)
Definition dollar_time : M Z := fun s => (clock (snd s), s).

(** Modelled from the spec: [periodical] is not part of the file; section
    6, timer primitive: "schedule(callback, intervalMs) -> Handle".  It
    installs a repeating timer and returns its handle.  The callback is
    [step]; see [fires] below. *)
Definition periodical (interval : Z) : M handle :=
  fun s =>
    let h := next_handle (snd s) in
    (h, (fst s, mkWorld (clock (snd s)) (Pos.succ h) (trace (snd s) ++ [Scheduled h interval]))).

(** Modelled from the spec: [$clear] is not part of the file; section 6,
    timer primitive: "cancel(Handle) -> void".  The result assigned to
    [this.timer] is the absent handle. *)
Definition dollar_clear (h : handle) : M (option handle) :=
  emit (Cleared h) ;; ret None.

(** [Math.round]. *)
Definition Math_round (q : Q) : Z := Qfloor (q + (1 # 2))%Q.

(** [this.options.transition(p)]: the easing function is a caller-supplied
    pure function; the call is recorded. *)
Definition call_transition (p : Q) : M Q :=
  self <- this ;;
  emit (Eased p) ;;
  ret (transition (options self) p).

(** Modelled from the spec: [increase] is not part of the file; section 6:
    "abstract/required hook: apply(currentValue: number) -> void", supplied
    by the concrete effect.  It reads [this.now]; here it records the value
    it was given. *)
Definition increase : M unit :=
  self <- this ;;
  emit (Applied (now self)).

(** Modelled from the spec: the Events mixin ([fireEvent]) is not part of
    the file; section 6 gives its contract, "fire(name, payload, delayMs?)
    invokes listeners, optionally deferred".  Listeners are observers: the
    firing is recorded with its payload and delay. *)
Definition fireEvent (e : event) (payload : Element) (delay : option Z) : M unit :=
  emit (Fired e payload delay).

(** Modelled from the spec: the Chain mixin's [chain] is not part of the
    file; section 6: "append(callable)". *)
Definition chain (fn : action) : M unit :=
  self <- this ;;
  assign (with_chains (chains self ++ [fn])).

(** Boolean [<] on numbers. *)
Definition Qltb (x y : Q) : bool := negb (Qle_bool y x).

(** ** Methods of the class *)

(** [compute] (lines 140-142). *)
Definition compute (from to : Q) : M Q :=
  self <- this ;;
  ret ((to - from) * delta self + from)%Q.

(** [setNow] (lines 136-138). *)
Definition setNow : M unit :=
  self <- this ;;
  v <- compute (from self) (to self) ;;
  assign (with_now v).

(** [stop] (lines 208-213).  [ignore] is the truthiness of the argument;
    [stop()] is [stop false]. *)
Definition stop (ignore : bool) : M unit :=
  self <- this ;;
  match timer self with
  | None => ret tt                                  (* if (!this.timer) return this; *)
  | Some h =>
      t <- dollar_clear h ;;
      assign (with_timer t) ;;                       (* this.timer = $clear(this.timer); *)
      if negb ignore                                 (* if (!ignore) *)
      then fireEvent onCancel (element self) None    (*   this.fireEvent('onCancel', this.element); *)
      else ret tt
  end.

(** [set] (lines 129-134). *)
Definition set (to : Q) : M unit :=
  assign (with_now to) ;;
  increase ;;
  self <- this ;;
  fireEvent onSet (element self) None.

(** Lines 170-176 of [start]: what an accepted request does. *)
Definition start_accepted (from to : Q) : M unit :=
  assign (with_from from) ;;
  assign (with_to to) ;;
  self <- this ;;
  assign (with_change (Fx.to self - Fx.from self)%Q) ;;
  t <- dollar_time ;;
  assign (with_time t) ;;
  self <- this ;;
  h <- periodical (Math_round (1000 / fps (options self))) ;;
  assign (with_timer (Some h)) ;;
  fireEvent onStart (element self) None.

(** [start] (lines 167-177). *)
Definition start (from to : Q) : M unit :=
  self <- this ;;
  if negb (wait (options self)) then
    stop false ;;                                    (* if (!this.options.wait) this.stop(); *)
    start_accepted from to
  else
    match timer self with
    | Some _ => ret tt                               (* else if (this.timer) return this; *)
    | None => start_accepted from to
    end.

(** One call of a chained action's body, with the instance as receiver. *)
Definition run_call (c : call) : M unit :=
  match c with
  | CStart a b => start a b
  | CStop i => stop i
  | CSet v => set v
  | CChain fn => chain fn
  end.

Fixpoint run_action (fn : action) : M unit :=
  match fn with
  | [] => ret tt
  | c :: rest => run_call c ;; run_action rest
  end.

(** Modelled from the spec: the Chain mixin's [callChain] is not part of
    the file; section 4.2: "invoke and remove the next queued deferred
    action, if any, with this instance as receiver - if the queue is empty,
    do nothing". *)
Definition callChain : M unit :=
  self <- this ;;
  match chains self with
  | [] => ret tt
  | fn :: rest =>
      assign (with_chains rest) ;;
      emit (Called fn) ;;
      run_action fn
  end.

(** [step] (lines 84-97). *)
Definition step : M unit :=
  time <- dollar_time ;;
  self <- this ;;
  if Qltb (inject_Z time) (inject_Z (Fx.time self) + duration (options self)) then
    d <- call_transition ((inject_Z time - inject_Z (Fx.time self)) / duration (options self)) ;;
    assign (with_delta d) ;;
    setNow ;;
    increase
  else
    stop true ;;
    self <- this ;;
    assign (with_now (to self)) ;;
    increase ;;
    fireEvent onComplete (element self) (Some 10%Z) ;;
    callChain.

(** ** The environment driving an instance *)

(** Time passes: the clock advances by [d] milliseconds. *)
Definition elapse (d : N) : M unit :=
  fun s => (tt, (fst s, mkWorld (clock (snd s) + Z.of_N d) (next_handle (snd s)) (trace (snd s)))).

(** The periodic timer fires: its callback [step] runs.  A cleared timer
    never fires. *)
Definition fires : M unit :=
  self <- this ;;
  match timer self with
  | Some _ => step
  | None => ret tt
  end.

(** One scheduled tick, [d] milliseconds after the previous instant. *)
Definition tick (d : N) : M unit := elapse d ;; fires.

Fixpoint ticks (ds : list N) : M unit :=
  match ds with
  | [] => ret tt
  | d :: rest => tick d ;; ticks rest
  end.

(** [new Fx(element, options)] (lines 78-82): no field but [element] and
    [options] is assigned; the others hold a placeholder until [start] or
    [set] writes them. *)
Definition construct (el : Element) (opts : Options) : Fx :=
  mkFx el opts 0 0 0 0 0 0 None [].

(** The default options (lines 64-76) with the cosine ease replaced by the
    identity, which is rational. *)
Definition linear_options : Options := mkOptions (fun p => p) 500 None true 50.

(** ** Reading the model *)

(** What a computation adds to the trace. *)
Definition emitted {A} (m : M A) (s : Sys) : list obs :=
  skipn (length (trace (snd s))) (trace (snd (exec m s))).

(** Number of times event [e] is fired in a piece of trace. *)
Definition event_eqb (e1 e2 : event) : bool :=
  match e1, e2 with
  | onStart, onStart | onSet, onSet | onComplete, onComplete | onCancel, onCancel => true
  | _, _ => false
  end.

Definition fires_of (e : event) (o : obs) : bool :=
  match o with
  | Fired e' _ _ => event_eqb e e'
  | _ => false
  end.

Definition fired (e : event) (tr : list obs) : nat := length (filter (fires_of e) tr).

(** Number of chained actions invoked in a piece of trace. *)
Definition is_called (o : obs) : bool :=
  match o with
  | Called _ => true
  | _ => false
  end.

Definition called (tr : list obs) : nat := length (filter is_called tr).

(** The sum of a list of delays. *)
Definition total (ds : list N) : N := fold_right N.add 0%N ds.

(** The test of line 86 at clock reading [t]. *)
Definition running_at (x : Fx) (t : Z) : bool :=
  Qltb (inject_Z t) (inject_Z (time x) + duration (options x)).

(** The progress fraction handed to the transition at clock reading [t]
    (line 87). *)
Definition progress (x : Fx) (t : Z) : Q :=
  (inject_Z t - inject_Z (time x)) / duration (options x).

(** The state the first branch of [step] leaves (lines 87-89). *)
Definition interpolated (s : Sys) : Sys :=
  let x := fst s in
  let w := snd s in
  let d := transition (options x) (progress x (clock w)) in
  let v := ((to x - from x) * d + from x)%Q in
  (with_now v (with_delta d x),
   mkWorld (clock w) (next_handle w) (trace w ++ [Eased (progress x (clock w)); Applied v])).

(** The state in which the second branch of [step] drains the chain:
    timer cleared, [now] set to [to], the value applied and [onComplete]
    fired (lines 91-94). *)
Definition cleared (t : option handle) : list obs :=
  match t with
  | Some h => [Cleared h]
  | None => []
  end.

Definition completed (s : Sys) : Sys :=
  let x := fst s in
  let w := snd s in
  (with_now (to x) (with_timer None x),
   mkWorld (clock w) (next_handle w)
     (trace w ++ cleared (timer x) ++
        [Applied (to x); Fired onComplete (element x) (Some 10%Z)])).

(** The state an accepted [start(a, b)] leaves when no run had to be
    stopped first (lines 170-176). *)
Definition started (a b : Q) (s : Sys) : Sys :=
  let x := fst s in
  let w := snd s in
  (mkFx (element x) (options x) a b (b - a) (clock w) (delta x) (now x)
        (Some (next_handle w)) (chains x),
   mkWorld (clock w) (Pos.succ (next_handle w))
     (trace w ++ [Scheduled (next_handle w) (Math_round (1000 / fps (options x)));
                  Fired onStart (element x) None])).

(** The state [stop(ignore)] leaves (lines 208-213). *)
Definition stopped (ignore : bool) (s : Sys) : Sys :=
  let x := fst s in
  let w := snd s in
  match timer x with
  | None => s
  | Some h =>
      (with_timer None x,
       mkWorld (clock w) (next_handle w)
         (trace w ++ Cleared h ::
            (if ignore then [] else [Fired onCancel (element x) None])))
  end.

(** The admission test of [start] (lines 168-169): the request goes
    through when the instance preempts ([wait] false) or is idle. *)
Definition accepts (s : Sys) : bool :=
  negb (wait (options (fst s))) ||
  match timer (fst s) with
  | Some _ => false
  | None => true
  end.

(** The values applied by a sequence of ticks that all fall inside the
    duration, starting at clock reading [t]. *)
Fixpoint frames (x : Fx) (t : Z) (ds : list N) : list obs :=
  match ds with
  | [] => []
  | d :: rest =>
      let t' := (t + Z.of_N d)%Z in
      let p := progress x t' in
      Eased p :: Applied ((to x - from x) * transition (options x) p + from x)%Q
        :: frames x t' rest
  end.

(** Two states that agree on everything but the cached [change]. *)
Definition forget_change (s : Sys) : Sys := (with_change 0 (fst s), snd s).

(** The operations of the class that the claims quantify over. *)
Inductive operation :=
| OpStep
| OpSet (to : Q)
| OpStop (ignore : bool)
| OpStart (from to : Q).

Definition perform (op : operation) : M unit :=
  match op with
  | OpStep => step
  | OpSet v => set v
  | OpStop i => stop i
  | OpStart a b => start a b
  end.

(** What can happen to an instance: time passes, its timer fires, or its
    owner calls [start], [stop], [set] or [chain]. *)
Inductive input :=
| Elapse (d : N)
| TimerFires
| User (c : call).

Definition react (i : input) : M unit :=
  match i with
  | Elapse d => elapse d
  | TimerFires => fires
  | User c => run_call c
  end.

(** The states an instance can be in: freshly constructed, at any clock
    reading, and then driven by any sequence of inputs. *)
Inductive reachable : Sys -> Prop :=
| reach_construct (el : Element) (opts : Options) (t0 : Z) (h0 : handle) :
    reachable (construct el opts, mkWorld t0 h0 [])
| reach_react (s : Sys) (i : input) :
    reachable s -> reachable (exec (react i) s).

(** Options with an easing that overshoots: a "back" ease-in,
    [p^2 ((s+1) p - s)] with [s = 1.7]. *)
Definition back_options : Options :=
  mkOptions (fun p => p * p * ((27 # 10) * p - (17 # 10)))%Q 500 None true 50.

(** A fresh instance at clock reading 1000. *)
Definition fresh (opts : Options) : Sys :=
  (construct 7%nat opts, mkWorld 1000%Z 1%positive []).

(** The same instance with a run from 1 to 0 in progress. *)
Definition busy (opts : Options) : Sys := exec (start 1 0) (fresh opts).

(** The same options under the preempt policy. *)
Definition preempting_options : Options := mkOptions (fun p => p) 500 None false 50.

(** A run from 1 to 0 with a follow-up queued, 500 ms after it began. *)
Definition due : Sys :=
  exec (start 1 0 ;; chain [CStart 0 1] ;; elapse 500) (fresh linear_options).

(** What runs keep true: every argument the transition was given lies in
    the unit interval, and a run in progress began no later than now. *)
Definition eased_in_unit (tr : list obs) : Prop :=
  forall p, In (Eased p) tr -> (0 <= p <= 1)%Q /\ (p < 1)%Q.

Definition run_inv (s : Sys) : Prop :=
  eased_in_unit (trace (snd s)) /\
  (timer (fst s) <> None -> (time (fst s) <= clock (snd s))%Z).

(** A run from 0 to 1 with the overshooting ease, caught at its middle. *)
Definition overshoot : Sys :=
  exec (react TimerFires)
    (exec (react (Elapse 250))
       (exec (react (User (CStart 0 1))) (fresh back_options))).


(** ** Accounting over a trace *)

(** The timers a trace leaves installed: scheduled and not cleared since. *)
Definition track (acc : list handle) (o : obs) : list handle :=
  match o with
  | Scheduled h _ => acc ++ [h]
  | Cleared h => filter (fun k => negb (Pos.eqb k h)) acc
  | _ => acc
  end.

Definition live (tr : list obs) : list handle := fold_left track tr [].

Definition timer_list (t : option handle) : list handle :=
  match t with
  | Some h => [h]
  | None => []
  end.

(** Number of values handed to the apply hook in a piece of trace. *)
Definition is_applied (o : obs) : bool :=
  match o with
  | Applied _ => true
  | _ => false
  end.

Definition applied (tr : list obs) : nat := length (filter is_applied tr).

(** 1 while a run is in progress, 0 otherwise. *)
Definition running (s : Sys) : nat :=
  match timer (fst s) with
  | Some _ => 1
  | None => 0
  end.

(** Every run that was completed, cancelled or is in progress was started. *)
Definition accounted (s : Sys) : Prop :=
  (fired onComplete (trace (snd s)) + fired onCancel (trace (snd s)) + running s
   <= fired onStart (trace (snd s)))%nat.

(** Once a run was started, the cached [change] is [to - from]. *)
Definition change_cached (s : Sys) : Prop :=
  fired onStart (trace (snd s)) <> 0%nat ->
  change (fst s) = (to (fst s) - from (fst s))%Q.

(** The instance owns the timers its trace leaves installed, and no other. *)
Definition owns_timers (s : Sys) : Prop :=
  live (trace (snd s)) = timer_list (timer (fst s)).


(** Every event carries the element as payload, and only [onComplete] is
    fired with a delay (of 10 ms). *)
Definition delay_of (e : event) : option Z :=
  match e with
  | onComplete => Some 10%Z
  | _ => None
  end.

Definition well_fired (s : Sys) : Prop :=
  forall e p dl,
    In (Fired e p dl) (trace (snd s)) -> p = element (fst s) /\ dl = delay_of e.

(** ** The order of the chain *)






(** Options with an easing that overshoots at the end: a "back" ease-out,
    [1 - q^2 ((s+1) q - s)] with [q = 1 - p] and [s = 1.7]. *)
Definition back_out_options : Options :=
  mkOptions (fun p => 1 - (1 - p) * (1 - p) * ((27 # 10) * (1 - p) - (17 # 10)))%Q
    500 None true 50.

(** A run from 0 to 1 with that ease, after a first tick at 50 ms. *)
Definition poised : Sys :=
  exec (react TimerFires)
    (exec (react (Elapse 50))
       (exec (react (User (CStart 0 1))) (fresh back_out_options))).

(** ** Proof tools *)

Ltac fx_unfold :=
  unfold exec, step, fires, tick, elapse, start, start_accepted, stop, set, setNow,
    compute, callChain, chain, increase, fireEvent, call_transition, dollar_clear,
    periodical, dollar_time, emit, assign, this, bind, ret.

Ltac fx_simpl :=
  cbn [fst snd element options from to change time delta now timer chains
       clock next_handle trace
       with_from with_to with_change with_time with_delta with_now with_timer with_chains
       negb cleared app].

Ltac fx_run := fx_unfold; fx_simpl.

Lemma Qltb_lt (x y : Q) : Qltb x y = true <-> (x < y)%Q.
Proof.
  unfold Qltb. rewrite negb_true_iff. split; intro H.
  - apply Qnot_le_lt. intro Hle. apply Qle_bool_iff in Hle. congruence.
  - destruct (Qle_bool y x) eqn:E; [|reflexivity].
    apply Qle_bool_iff in E. exfalso. exact (Qlt_not_le _ _ H E).
Qed.

Lemma Qltb_ge (x y : Q) : Qltb x y = false <-> (y <= x)%Q.
Proof.
  unfold Qltb. rewrite negb_false_iff. apply Qle_bool_iff.
Qed.

(** ** The stop contract (lines 208-213) *)

Lemma stop_when_idle (ignore : bool) (s : Sys) :
  timer (fst s) = None -> stop ignore s = (tt, s).
Proof.
  destruct s as [x w]. cbn [fst]. intro H. fx_run. rewrite H. reflexivity.
Qed.

Lemma stop_running (ignore : bool) (x : Fx) (w : World) (h : handle) :
  timer x = Some h ->
  stop ignore (x, w) =
  (tt, (with_timer None x,
        mkWorld (clock w) (next_handle w)
          (trace w ++ Cleared h ::
             (if ignore then [] else [Fired onCancel (element x) None])))).
Proof.
  intro H. fx_run. rewrite H. fx_simpl. destruct ignore; fx_simpl.
  - reflexivity.
  - rewrite <- app_assoc. reflexivity.
Qed.

(** C8.  With no run in progress (no timer), [stop] is a no-op whatever its
    argument: the instance and its environment are returned as they were,
    so no field is changed and nothing is fired. *)
Theorem stop_idle_noop (ignore : bool) (s : Sys) :
  timer (fst s) = None ->
  exec (stop ignore) s = s /\ emitted (stop ignore) s = [].
Proof.
  intro H. unfold emitted, exec. rewrite (stop_when_idle ignore s H). cbn [snd].
  split; [reflexivity|]. apply skipn_all.
Qed.

(** ** The start policy (lines 167-177) *)

Lemma start_accepted_eq (a b : Q) (s : Sys) :
  start_accepted a b s = (tt, started a b s).
Proof.
  destruct s as [x w]. fx_run. unfold started. fx_simpl.
  rewrite <- app_assoc. reflexivity.
Qed.

Lemma start_rejected (a b : Q) (s : Sys) (h : handle) :
  wait (options (fst s)) = true -> timer (fst s) = Some h ->
  start a b s = (tt, s).
Proof.
  destruct s as [x w]. cbn [fst]. intros Hw Ht.
  unfold start, bind, this. fx_simpl. rewrite Hw, Ht. reflexivity.
Qed.

Lemma start_idle (a b : Q) (s : Sys) :
  timer (fst s) = None -> start a b s = (tt, started a b s).
Proof.
  destruct s as [x w]. cbn [fst]. intro Ht.
  unfold start, bind, this. fx_simpl.
  destruct (wait (options x)); fx_simpl.
  - rewrite Ht. apply start_accepted_eq.
  - rewrite (stop_when_idle false (x, w) Ht). apply start_accepted_eq.
Qed.

Lemma start_stops_first (a b : Q) (x : Fx) (w : World) (h : handle) :
  wait (options x) = false -> timer x = Some h ->
  start a b (x, w) =
  (tt, started a b
         (with_timer None x,
          mkWorld (clock w) (next_handle w)
            (trace w ++ [Cleared h; Fired onCancel (element x) None]))).
Proof.
  intros Hw Ht. unfold start, bind, this. fx_simpl. rewrite Hw. fx_simpl.
  rewrite (stop_running false x w Ht). apply start_accepted_eq.
Qed.

(** C3.  Under [wait = true] with a run in progress, [start(a, b)] gives
    back the instance and its environment exactly as they were: [from],
    [to], [change] and [time] keep their values, no timer is scheduled and
    no event is fired. *)
Theorem start_waits (a b : Q) (s : Sys) (h : handle) :
  wait (options (fst s)) = true ->
  timer (fst s) = Some h ->
  exec (start a b) s = s /\ emitted (start a b) s = [].
Proof.
  intros Hw Ht. unfold emitted, exec. rewrite (start_rejected a b s Hw Ht). cbn [snd].
  split; [reflexivity|]. apply skipn_all.
Qed.

(** C4.  Under [wait = false] with a run in progress, [start(a, b)] first
    stops the old run (timer cleared, [onCancel] fired), then sets
    [from = a], [to = b], [change = b - a], schedules the periodic timer
    and last fires [onStart]. *)
Theorem start_preempts_run (a b : Q) (x : Fx) (w : World) (h : handle) :
  wait (options x) = false ->
  timer x = Some h ->
  exec (start a b) (x, w) =
  (mkFx (element x) (options x) a b (b - a) (clock w) (delta x) (now x)
        (Some (next_handle w)) (chains x),
   mkWorld (clock w) (Pos.succ (next_handle w))
     (trace w ++ [Cleared h;
                  Fired onCancel (element x) None;
                  Scheduled (next_handle w) (Math_round (1000 / fps (options x)));
                  Fired onStart (element x) None])).
Proof.
  intros Hw Ht. unfold exec. rewrite (start_stops_first a b x w Hw Ht).
  unfold started. fx_simpl. rewrite <- app_assoc. reflexivity.
Qed.

(** ** The tick (lines 84-97) *)

Lemma step_interpolates (s : Sys) :
  running_at (fst s) (clock (snd s)) = true ->
  step s = (tt, interpolated s).
Proof.
  destruct s as [x w]. unfold running_at, interpolated, progress. cbn [fst snd].
  intro H. fx_run. rewrite H. fx_simpl. rewrite <- app_assoc. reflexivity.
Qed.

Lemma step_completes (s : Sys) :
  running_at (fst s) (clock (snd s)) = false ->
  step s = callChain (completed s).
Proof.
  destruct s as [x w]. unfold running_at. cbn [fst snd]. intro H.
  unfold step, bind, dollar_time, this. fx_simpl. rewrite H.
  destruct (timer x) as [h|] eqn:Ht.
  - rewrite (stop_running true x w Ht).
    unfold completed, increase, fireEvent, assign, emit, bind, this. fx_simpl.
    rewrite Ht. fx_simpl. rewrite <- !app_assoc. reflexivity.
  - rewrite (stop_when_idle true (x, w) Ht).
    unfold completed, increase, fireEvent, assign, emit, bind, this. fx_simpl.
    rewrite Ht. fx_simpl. rewrite <- !app_assoc.
    destruct x; cbn in Ht; subst; reflexivity.
Qed.

Lemma exec_bind {A B} (m : M A) (k : M B) (s : Sys) :
  exec (m ;; k) s = exec k (exec m s).
Proof.
  unfold exec, bind. destruct (m s) as [a s']. reflexivity.
Qed.

Lemma exec_unit (m : M unit) (s s' : Sys) : m s = (tt, s') -> exec m s = s'.
Proof. unfold exec. intros ->. reflexivity. Qed.

Lemma stop_stopped (ignore : bool) (s : Sys) : stop ignore s = (tt, stopped ignore s).
Proof.
  destruct s as [x w]. unfold stopped. cbn [fst snd].
  destruct (timer x) as [h|] eqn:Ht.
  - apply (stop_running ignore x w Ht).
  - apply (stop_when_idle ignore (x, w) Ht).
Qed.

Lemma start_accepts (a b : Q) (s : Sys) :
  accepts s = true -> start a b s = (tt, started a b (stopped false s)).
Proof.
  destruct s as [x w]. unfold accepts. cbn [fst]. intro H.
  unfold start, bind, this. fx_simpl.
  destruct (wait (options x)); fx_simpl.
  - cbn [negb orb] in H. unfold stopped. cbn [fst snd].
    destruct (timer x); [discriminate|]. apply start_accepted_eq.
  - rewrite stop_stopped. apply start_accepted_eq.
Qed.

(** ** Runs: the timer firing again and again *)

Lemma running_at_mono (x : Fx) (t1 t2 : Z) :
  (t1 <= t2)%Z -> running_at x t2 = true -> running_at x t1 = true.
Proof.
  unfold running_at. rewrite !Qltb_lt. intros Hle Hlt.
  eapply Qle_lt_trans; [|exact Hlt]. rewrite <- Zle_Qle. exact Hle.
Qed.

Lemma fires_idle (s : Sys) : timer (fst s) = None -> fires s = (tt, s).
Proof.
  destruct s as [x w]. cbn [fst]. intro H. unfold fires, bind, this. fx_simpl.
  rewrite H. reflexivity.
Qed.

Lemma fires_step (s : Sys) (h : handle) : timer (fst s) = Some h -> fires s = step s.
Proof.
  destruct s as [x w]. cbn [fst]. intro H. unfold fires, bind, this. fx_simpl.
  rewrite H. reflexivity.
Qed.

Lemma frames_frame (x : Fx) (dl v : Q) (ds : list N) :
  forall t, frames (with_now v (with_delta dl x)) t ds = frames x t ds.
Proof.
  induction ds as [|d ds IH]; intro t; cbn [frames]; [reflexivity|].
  rewrite IH. reflexivity.
Qed.

Lemma ticks_interpolate (ds : list N) :
  forall (x : Fx) (w : World) (h : handle),
    timer x = Some h ->
    running_at x (clock w + Z.of_N (total ds)) = true ->
    exists dl v,
      ticks ds (x, w) =
      (tt, (with_now v (with_delta dl x),
            mkWorld (clock w + Z.of_N (total ds)) (next_handle w)
              (trace w ++ frames x (clock w) ds))).
Proof.
  induction ds as [|d ds IH]; intros x w h Ht Hrun.
  - exists (delta x), (now x). cbn [ticks total fold_right frames Z.of_N].
    rewrite Z.add_0_r, app_nil_r. destruct x, w. reflexivity.
  - cbn [total fold_right] in Hrun. fold (total ds) in Hrun.
    rewrite N2Z.inj_add, Z.add_assoc in Hrun.
    assert (Hd : running_at x (clock w + Z.of_N d) = true).
    { apply (running_at_mono x (t2 := (clock w + Z.of_N d + Z.of_N (total ds))%Z)); [lia|exact Hrun]. }
    cbn [ticks]. unfold bind at 1. unfold tick, bind at 1, elapse. cbn [fst snd].
    rewrite (@fires_step (x, _) h Ht), step_interpolates by exact Hd.
    unfold interpolated. cbn [fst snd clock next_handle trace].
    set (p := progress x (clock w + Z.of_N d)).
    set (dl := transition (options x) p).
    set (v := ((to x - from x) * dl + from x)%Q).
    destruct (IH (with_now v (with_delta dl x))
                 (mkWorld (clock w + Z.of_N d) (next_handle w)
                    (trace w ++ [Eased p; Applied v])) h Ht Hrun)
      as (dl' & v' & E).
    exists dl', v'. rewrite E. cbn [clock next_handle trace total fold_right frames].
    fold (total ds). rewrite frames_frame, N2Z.inj_add, Z.add_assoc, <- app_assoc.
    reflexivity.
Qed.

Lemma run_inside (x : Fx) (c : Z) (n : N) :
  time x = c ->
  (inject_Z (Z.of_N n) < duration (options x))%Q ->
  running_at x (c + Z.of_N n) = true.
Proof.
  intros <- H. unfold running_at. apply Qltb_lt.
  rewrite inject_Z_plus. apply Qplus_lt_r. exact H.
Qed.

Lemma run_over (x : Fx) (c : Z) (n : N) :
  time x = c ->
  (duration (options x) <= inject_Z (Z.of_N n))%Q ->
  running_at x (c + Z.of_N n) = false.
Proof.
  intros <- H. unfold running_at. apply Qltb_ge.
  rewrite inject_Z_plus. apply Qplus_le_r. exact H.
Qed.

Lemma tick_completes (d : N) (x : Fx) (w : World) (h : handle) :
  timer x = Some h ->
  running_at x (clock w + Z.of_N d) = false ->
  tick d (x, w) = callChain (completed (exec (elapse d) (x, w))).
Proof.
  intros Ht Hrun. unfold tick, bind at 1, elapse, exec. cbn [fst snd].
  rewrite (@fires_step (x, _) h Ht). apply step_completes. exact Hrun.
Qed.

Lemma stopped_frame (ignore : bool) (s : Sys) :
  exists e,
    stopped ignore s =
    (with_timer None (fst s),
     mkWorld (clock (snd s)) (next_handle (snd s)) (trace (snd s) ++ e)) /\
    called e = 0%nat /\ fired onComplete e = 0%nat.
Proof.
  destruct s as [x w]. unfold stopped. cbn [fst snd].
  destruct (timer x) as [h|] eqn:Ht.
  - eexists. split; [reflexivity|]. destruct ignore; split; reflexivity.
  - exists []. rewrite app_nil_r. split; [|split; reflexivity].
    destruct x, w. cbn in Ht. subst. reflexivity.
Qed.

(** C2.  A run that completes naturally: [start(a, b)] is accepted, the
    ticks [ds] fall inside the duration and the next tick, [d] later, finds
    the duration reached.  That tick clears the timer, sets [now] to
    exactly [b], the [to] of the accepted call, whatever the last eased
    value was, applies [b] once more, fires [onComplete] and then drains
    the chain; with nothing chained, the state it leaves is that one. *)
Theorem completion_is_exact (a b : Q) (ds : list N) (d : N) (s : Sys) :
  accepts s = true ->
  (inject_Z (Z.of_N (total ds)) < duration (options (fst s)))%Q ->
  (duration (options (fst s)) <= inject_Z (Z.of_N (total ds + d)))%Q ->
  let ran := exec (start a b ;; ticks ds) s in
  let done := completed (exec (elapse d) ran) in
  to (fst ran) = b /\
  exec (tick d) ran = exec callChain done /\
  now (fst done) = b /\
  (exists h,
     timer (fst ran) = Some h /\
     trace (snd done) =
     trace (snd ran) ++
       [Cleared h; Applied b; Fired onComplete (element (fst s)) (Some 10%Z)]) /\
  (chains (fst s) = [] -> exec (tick d) ran = done).
Proof.
  intros Hacc Hpre Hpost ran done.
  assert (Hran : exists dl v tr,
             ran = (mkFx (element (fst s)) (options (fst s)) a b (b - a) (clock (snd s))
                      dl v (Some (next_handle (snd s))) (chains (fst s)),
                    mkWorld (clock (snd s) + Z.of_N (total ds))
                      (Pos.succ (next_handle (snd s))) tr)).
  { subst ran. rewrite exec_bind. rewrite (exec_unit _ _ (start_accepts a b s Hacc)).
    destruct (stopped_frame false s) as (e & -> & _).
    unfold started. cbn [fst snd clock next_handle trace element options delta now chains with_timer].
    match goal with |- context [exec (ticks ds) (?x, ?w)] =>
      destruct (@ticks_interpolate ds x w (next_handle (snd s)) eq_refl) as (dl & v & E)
    end.
    { apply run_inside; [reflexivity|exact Hpre]. }
    rewrite (exec_unit _ _ E). eexists _, _, _. reflexivity. }
  destruct Hran as (dl & v & tr & Eran).
  assert (Htick : tick d ran = callChain done).
  { subst done. rewrite Eran.
    apply tick_completes with (h := next_handle (snd s)); [reflexivity|].
    cbn [clock]. rewrite <- Z.add_assoc, <- N2Z.inj_add.
    apply run_over; [reflexivity|exact Hpost]. }
  subst done. rewrite Eran in *. cbn [fst snd].
  split; [reflexivity|]. split; [unfold exec at 1; rewrite Htick; reflexivity|].
  split; [reflexivity|]. split.
  - exists (next_handle (snd s)). split; reflexivity.
  - intro Hch. unfold exec at 1. rewrite Htick.
    unfold callChain, bind, this, completed, exec, elapse.
    cbn [fst snd chains with_now with_timer]. rewrite Hch. reflexivity.
Qed.

(** ** The interpolator (lines 136-142) *)

Lemma compute_eq (a b : Q) (s : Sys) :
  compute a b s = (((b - a) * delta (fst s) + a)%Q, s).
Proof. reflexivity. Qed.

Lemma Qplus_comm_eq (p q : Q) : (p + q)%Q = (q + p)%Q.
Proof.
  unfold Qplus. f_equal; [apply Z.add_comm|apply Pos.mul_comm].
Qed.

(** C6.  [compute(from, to)] is [from + (to - from) * delta], leaving the
    instance as it is; and a tick that finds the elapsed time below the
    duration sets [delta] to the transition of [elapsed / duration], then
    [now] to [from + (to - from) * delta], then hands that [now] to the
    apply hook. *)
Theorem interpolation_is_linear :
  (forall (a b : Q) (s : Sys),
      compute a b s = ((a + (b - a) * delta (fst s))%Q, s)) /\
  (forall (s : Sys),
      (inject_Z (clock (snd s)) < inject_Z (time (fst s)) + duration (options (fst s)))%Q ->
      let x := fst s in
      let elapsed := (inject_Z (clock (snd s)) - inject_Z (time x))%Q in
      let x' := fst (exec step s) in
      delta x' = transition (options x) (elapsed / duration (options x)) /\
      now x' = (from x + (to x - from x) * delta x')%Q /\
      from x' = from x /\ to x' = to x /\
      trace (snd (exec step s)) =
      trace (snd s) ++ [Eased (elapsed / duration (options x)); Applied (now x')]).
Proof.
  split.
  - intros a b s. rewrite compute_eq. f_equal. apply Qplus_comm_eq.
  - intros s H x elapsed x'. subst x'. unfold exec.
    rewrite step_interpolates by (apply Qltb_lt; exact H).
    unfold interpolated, progress. subst x elapsed. cbn [fst snd delta now from to trace with_now with_delta].
    repeat split; try reflexivity. apply Qplus_comm_eq.
Qed.

(** ** What a chained action can do *)


Lemma emitted_app {A} (m : M A) (s : Sys) (e : list obs) :
  trace (snd (exec m s)) = trace (snd s) ++ e -> emitted m s = e.
Proof.
  unfold emitted. intros ->. rewrite skipn_app, skipn_all, Nat.sub_diag. reflexivity.
Qed.

Lemma start_rejects (a b : Q) (s : Sys) : accepts s = false -> start a b s = (tt, s).
Proof.
  unfold accepts. intro H. apply orb_false_iff in H. destruct H as [Hw Ht].
  apply negb_false_iff in Hw. destruct (timer (fst s)) as [h|] eqn:E; [|discriminate].
  exact (start_rejected a b s Hw E).
Qed.

Lemma set_eq (v : Q) (s : Sys) :
  set v s =
  (tt, (with_now v (fst s),
        mkWorld (clock (snd s)) (next_handle (snd s))
          (trace (snd s) ++ [Applied v; Fired onSet (element (fst s)) None]))).
Proof.
  destruct s as [x w]. fx_run. rewrite <- app_assoc. reflexivity.
Qed.

Lemma chain_eq (fn : action) (s : Sys) :
  chain fn s = (tt, (with_chains (chains (fst s) ++ [fn]) (fst s), snd s)).
Proof. destruct s as [x w]. reflexivity. Qed.

Lemma callChain_empty (s : Sys) : chains (fst s) = [] -> callChain s = (tt, s).
Proof.
  destruct s as [x w]. cbn [fst]. intro H. unfold callChain, bind, this. fx_simpl.
  rewrite H. reflexivity.
Qed.

Lemma callChain_next (s : Sys) (fn : action) (rest : list action) :
  chains (fst s) = fn :: rest ->
  callChain s =
  run_action fn
    (with_chains rest (fst s),
     mkWorld (clock (snd s)) (next_handle (snd s)) (trace (snd s) ++ [Called fn])).
Proof.
  destruct s as [x w]. cbn [fst snd]. intro H. unfold callChain, bind, this. fx_simpl.
  rewrite H. reflexivity.
Qed.





(** ** Cancellation against completion *)

Lemma completed_running (x : Fx) (w : World) (h : handle) :
  timer x = Some h ->
  completed (x, w) =
  (with_now (to x) (with_timer None x),
   mkWorld (clock w) (next_handle w)
     (trace w ++ [Cleared h; Applied (to x); Fired onComplete (element x) (Some 10%Z)])).
Proof. unfold completed. cbn [fst snd]. intros ->. reflexivity. Qed.

Lemma exec_fires_idle (s : Sys) : timer (fst s) = None -> exec fires s = s.
Proof. intro H. apply exec_unit, fires_idle, H. Qed.

Lemma exec_start_idle (a b : Q) (s : Sys) :
  timer (fst s) = None -> exec (start a b) s = started a b s.
Proof. intro H. apply exec_unit, start_idle, H. Qed.

(** C5.  While a run is active (timer set): an explicit [stop()] clears
    the timer and fires [onCancel] once and [onComplete] never, and the
    cleared timer does not fire again; a tick that finds the duration
    reached clears the timer, applies [to] and fires [onComplete] once and
    [onCancel] never, before it hands over to the chain. *)
Theorem cancel_or_complete (x : Fx) (w : World) (h : handle) :
  timer x = Some h ->
  (let out := emitted (stop false) (x, w) in
   out = [Cleared h; Fired onCancel (element x) None] /\
   fired onCancel out = 1%nat /\ fired onComplete out = 0%nat /\
   forall d, emitted (tick d) (exec (stop false) (x, w)) = []) /\
  (running_at x (clock w) = false ->
   let done := completed (x, w) in
   let out := skipn (length (trace w)) (trace (snd done)) in
   exec fires (x, w) = exec callChain done /\
   out = [Cleared h; Applied (to x); Fired onComplete (element x) (Some 10%Z)] /\
   fired onComplete out = 1%nat /\ fired onCancel out = 0%nat /\
   (chains x = [] -> emitted fires (x, w) = out)).
Proof.
  intro Ht. split.
  - assert (E : emitted (stop false) (x, w) = [Cleared h; Fired onCancel (element x) None]).
    { apply emitted_app. rewrite (exec_unit _ _ (stop_running false x w Ht)). reflexivity. }
    cbv zeta. rewrite E. repeat split.
    intro d. apply emitted_app. rewrite (exec_unit _ _ (stop_running false x w Ht)).
    unfold tick. rewrite exec_bind. unfold exec at 2, elapse. cbn [fst snd].
    rewrite exec_fires_idle by reflexivity. cbn [snd trace].
    rewrite app_nil_r. reflexivity.
  - intros Hrun done out.
    assert (Ef : fires (x, w) = callChain done).
    { rewrite (@fires_step (x, w) h Ht). apply step_completes. exact Hrun. }
    assert (Eo : out = [Cleared h; Applied (to x); Fired onComplete (element x) (Some 10%Z)]).
    { subst out done. rewrite (completed_running x w Ht). cbn [snd trace].
      rewrite skipn_app, skipn_all, Nat.sub_diag. reflexivity. }
    split; [unfold exec; rewrite Ef; reflexivity|].
    rewrite Eo. repeat split.
    intro Hch. apply emitted_app. unfold exec. rewrite Ef.
    rewrite callChain_empty by (subst done; exact Hch).
    subst done. rewrite (completed_running x w Ht). reflexivity.
Qed.

(** ** The chain *)

(** C9.  In the completion branch the timer is cleared first
    ([stop(true)]), then [now] is set, the value applied and [onComplete]
    fired; the chain is drained in a state whose timer is absent.  A
    chained action that begins with [start(a, b)] therefore has its request
    accepted, whatever [wait] is: a new timer is scheduled and [onStart]
    fired. *)
Theorem chained_start_is_accepted
    (a b : Q) (more : action) (queue : list action) (x : Fx) (w : World) (h : handle) :
  timer x = Some h ->
  running_at x (clock w) = false ->
  chains x = (CStart a b :: more) :: queue ->
  let done := completed (x, w) in
  done = exec (assign (with_now (to x)) ;; increase ;;
               fireEvent onComplete (element x) (Some 10%Z)) (exec (stop true) (x, w)) /\
  timer (fst (exec (stop true) (x, w))) = None /\
  timer (fst done) = None /\
  exec fires (x, w) =
  exec (run_action more)
    (mkFx (element x) (options x) a b (b - a) (clock w) (delta x) (to x)
          (Some (next_handle w)) queue,
     mkWorld (clock w) (Pos.succ (next_handle w))
       (trace w ++ [Cleared h; Applied (to x);
                    Fired onComplete (element x) (Some 10%Z);
                    Called (CStart a b :: more);
                    Scheduled (next_handle w) (Math_round (1000 / fps (options x)));
                    Fired onStart (element x) None])).
Proof.
  intros Ht Hrun Hch done. subst done.
  rewrite (exec_unit _ _ (stop_running true x w Ht)), (completed_running x w Ht).
  split; [|split; [reflexivity|split; [reflexivity|]]].
  - fx_run. rewrite <- !app_assoc. reflexivity.
  - unfold exec at 1. rewrite (@fires_step (x, w) h Ht), (step_completes (x, w)) by exact Hrun.
    rewrite (@callChain_next _ (CStart a b :: more) queue)
      by (rewrite (completed_running x w Ht); exact Hch).
    rewrite (completed_running x w Ht). cbn [run_action run_call fst snd clock next_handle trace].
    change (snd (bind (start a b) (fun _ => run_action more) ?s))
      with (exec (start a b ;; run_action more) s).
    rewrite exec_bind, exec_start_idle by reflexivity.
    unfold started. fx_simpl. rewrite <- !app_assoc. reflexivity.
Qed.


(** ** The cached [change] *)

Lemma split_change (x1 x2 : Fx) :
  with_change 0 x1 = with_change 0 x2 -> x1 = with_change (change x1) x2.
Proof.
  destruct x1, x2. unfold with_change. cbn. intro H. injection H as -> -> -> -> -> -> -> -> ->.
  reflexivity.
Qed.

Lemma two_states (m : M unit) :
  (forall x w c, forget_change (exec m (with_change c x, w)) = forget_change (exec m (x, w))) ->
  forall s1 s2,
    forget_change s1 = forget_change s2 ->
    forget_change (exec m s1) = forget_change (exec m s2).
Proof.
  intros H [x1 w1] [x2 w2] E. unfold forget_change in E. cbn [fst snd] in E.
  pose proof (f_equal fst E) as Ex. pose proof (f_equal snd E) as Ew.
  cbn [fst snd] in Ex, Ew. subst w2. rewrite (@split_change x1 x2 Ex). apply H.
Qed.

Lemma stop_change (i : bool) (x : Fx) (w : World) (c : Q) :
  forget_change (exec (stop i) (with_change c x, w)) = forget_change (exec (stop i) (x, w)).
Proof.
  rewrite !(exec_unit _ _ (stop_stopped i _)). unfold stopped, forget_change.
  cbn [fst snd timer with_change element]. destruct (timer x); reflexivity.
Qed.

Lemma set_change (v : Q) (x : Fx) (w : World) (c : Q) :
  forget_change (exec (set v) (with_change c x, w)) = forget_change (exec (set v) (x, w)).
Proof. rewrite !(exec_unit _ _ (set_eq v _)). reflexivity. Qed.

Lemma chain_change (fn : action) (x : Fx) (w : World) (c : Q) :
  forget_change (exec (chain fn) (with_change c x, w)) = forget_change (exec (chain fn) (x, w)).
Proof. reflexivity. Qed.

Lemma start_change (a b : Q) (x : Fx) (w : World) (c : Q) :
  forget_change (exec (start a b) (with_change c x, w)) =
  forget_change (exec (start a b) (x, w)).
Proof.
  destruct (accepts (x, w)) eqn:Hacc.
  - rewrite (exec_unit _ _ (start_accepts a b (x, w) Hacc)).
    rewrite (exec_unit _ _ (start_accepts a b (with_change c x, w) Hacc)).
    unfold started, stopped, forget_change. cbn [fst snd timer with_change element].
    destruct (timer x); reflexivity.
  - rewrite (exec_unit _ _ (start_rejects a b (x, w) Hacc)).
    rewrite (exec_unit _ _ (start_rejects a b (with_change c x, w) Hacc)).
    reflexivity.
Qed.

Lemma run_call_change (cl : call) (s1 s2 : Sys) :
  forget_change s1 = forget_change s2 ->
  forget_change (exec (run_call cl) s1) = forget_change (exec (run_call cl) s2).
Proof.
  apply two_states. intros x w c. destruct cl as [a b|i|v|fn]; cbn [run_call].
  - apply start_change.
  - apply stop_change.
  - apply set_change.
  - apply chain_change.
Qed.

Lemma run_action_change (fn : action) :
  forall s1 s2,
    forget_change s1 = forget_change s2 ->
    forget_change (exec (run_action fn) s1) = forget_change (exec (run_action fn) s2).
Proof.
  induction fn as [|cl fn IH]; intros s1 s2 E; cbn [run_action].
  - exact E.
  - rewrite !exec_bind. apply IH, run_call_change, E.
Qed.

Lemma callChain_change (x : Fx) (w : World) (c : Q) :
  forget_change (exec callChain (with_change c x, w)) = forget_change (exec callChain (x, w)).
Proof.
  destruct (chains x) as [|fn rest] eqn:Hch.
  - rewrite (exec_unit _ _ (callChain_empty (x, w) Hch)).
    rewrite (exec_unit _ _ (callChain_empty (with_change c x, w) Hch)). reflexivity.
  - unfold exec. rewrite (@callChain_next (x, w) fn rest Hch).
    rewrite (@callChain_next (with_change c x, w) fn rest Hch).
    apply run_action_change. reflexivity.
Qed.

Lemma exec_step_completes (s : Sys) :
  running_at (fst s) (clock (snd s)) = false ->
  exec step s = exec callChain (completed s).
Proof. intro H. unfold exec. rewrite (step_completes s H). reflexivity. Qed.

Lemma step_change (x : Fx) (w : World) (c : Q) :
  forget_change (exec step (with_change c x, w)) = forget_change (exec step (x, w)).
Proof.
  destruct (running_at x (clock w)) eqn:Hrun.
  - rewrite (exec_unit _ _ (step_interpolates (x, w) Hrun)).
    rewrite (exec_unit _ _ (step_interpolates (with_change c x, w) Hrun)). reflexivity.
  - rewrite (exec_step_completes (x, w) Hrun).
    rewrite (exec_step_completes (with_change c x, w) Hrun).
    apply (@two_states callChain callChain_change). reflexivity.
Qed.

(** C10.  An accepted [start(a, b)] writes [change = b - a]; no operation
    reads it.  From two states that agree on everything but [change],
    [step], [set], [stop] and [start] leave states that again agree on
    everything but [change]: the same trace (values applied, events fired,
    timers) and the same value in every other field. *)
Theorem change_is_write_only :
  (forall (a b : Q) (s : Sys),
      accepts s = true -> change (fst (exec (start a b) s)) = (b - a)%Q) /\
  (forall (op : operation) (s1 s2 : Sys),
      forget_change s1 = forget_change s2 ->
      forget_change (exec (perform op) s1) = forget_change (exec (perform op) s2)).
Proof.
  split.
  - intros a b s Hacc. rewrite (exec_unit _ _ (start_accepts a b s Hacc)). reflexivity.
  - intros op. apply two_states. intros x w c. destruct op as [|v|i|a b]; cbn [perform].
    + apply step_change.
    + apply set_change.
    + apply stop_change.
    + apply start_change.
Qed.

(** ** The argument of the transition *)

Lemma progress_in_unit (x : Fx) (t : Z) :
  (time x <= t)%Z -> running_at x t = true ->
  (0 <= progress x t <= 1)%Q /\ (progress x t < 1)%Q.
Proof.
  unfold running_at, progress. rewrite Qltb_lt, Zle_Qle.
  set (t0 := inject_Z (time x)). set (t1 := inject_Z t). set (dur := duration (options x)).
  intros Hle Hlt.
  assert (Hel : (0 <= t1 - t0)%Q) by lra.
  assert (Heu : (t1 - t0 < dur)%Q) by lra.
  assert (Hdur : (0 < dur)%Q) by lra.
  assert (Hlt1 : ((t1 - t0) / dur < 1)%Q).
  { apply Qlt_shift_div_r; [exact Hdur|]. rewrite Qmult_1_l. exact Heu. }
  split; [split|exact Hlt1].
  - apply Qle_shift_div_l; [exact Hdur|]. rewrite Qmult_0_l. exact Hel.
  - apply Qlt_le_weak, Hlt1.
Qed.

Lemma eased_in_unit_app (tr e : list obs) :
  eased_in_unit tr -> eased_in_unit e -> eased_in_unit (tr ++ e).
Proof.
  intros H1 H2 p Hin. apply in_app_iff in Hin. destruct Hin; auto.
Qed.

(** A piece of trace in which the transition is not evaluated. *)
Lemma eased_in_unit_quiet (e : list obs) :
  (forall p, ~ In (Eased p) e) -> eased_in_unit e.
Proof. intros H p Hin. destruct (H p Hin). Qed.

Ltac quiet :=
  apply eased_in_unit_quiet; intros ? Hin; cbn [In app] in Hin;
  repeat (destruct Hin as [Hin|Hin]; [discriminate Hin|]); exact Hin.

Lemma run_inv_stopped (i : bool) (s : Sys) : run_inv s -> run_inv (stopped i s).
Proof.
  destruct s as [x w]. unfold run_inv, stopped. cbn [fst snd].
  intros [He Ht]. destruct (timer x) as [h|] eqn:E; cbn [fst snd trace timer with_timer].
  - split; [|intro H; destruct (H eq_refl)].
    apply eased_in_unit_app; [exact He|]. destruct i; quiet.
  - rewrite E. split; [exact He|exact Ht].
Qed.

Lemma run_inv_started (a b : Q) (s : Sys) : run_inv s -> run_inv (started a b s).
Proof.
  destruct s as [x w]. unfold run_inv, started. cbn [fst snd trace timer time clock].
  intros [He _]. split; [|intros _; apply Z.le_refl].
  apply eased_in_unit_app; [exact He|quiet].
Qed.

Lemma run_inv_call (c : call) (s : Sys) : run_inv s -> run_inv (exec (run_call c) s).
Proof.
  intro H. destruct c as [a b|i|v|fn]; cbn [run_call].
  - destruct (accepts s) eqn:Hacc.
    + rewrite (exec_unit _ _ (start_accepts a b s Hacc)).
      apply run_inv_started, run_inv_stopped, H.
    + rewrite (exec_unit _ _ (start_rejects a b s Hacc)). exact H.
  - rewrite (exec_unit _ _ (stop_stopped i s)). apply run_inv_stopped, H.
  - rewrite (exec_unit _ _ (set_eq v s)). destruct H as [He Ht].
    split; [|exact Ht]. cbn [snd trace]. apply eased_in_unit_app; [exact He|quiet].
  - rewrite (exec_unit _ _ (chain_eq fn s)). exact H.
Qed.

Lemma run_inv_action (fn : action) : forall s, run_inv s -> run_inv (exec (run_action fn) s).
Proof.
  induction fn as [|c fn IH]; intros s H; cbn [run_action].
  - exact H.
  - rewrite exec_bind. apply IH, run_inv_call, H.
Qed.

Lemma run_inv_callChain (s : Sys) : run_inv s -> run_inv (exec callChain s).
Proof.
  intro H. destruct (chains (fst s)) as [|fn rest] eqn:Hch.
  - rewrite (exec_unit _ _ (callChain_empty s Hch)). exact H.
  - unfold exec. rewrite (callChain_next s Hch). apply run_inv_action.
    destruct H as [He Ht]. split; [|exact Ht].
    cbn [snd trace]. apply eased_in_unit_app; [exact He|quiet].
Qed.

Lemma run_inv_fires (s : Sys) : run_inv s -> run_inv (exec fires s).
Proof.
  intro H. destruct (timer (fst s)) as [h|] eqn:Ht.
  - unfold exec at 1. rewrite (fires_step s Ht). fold (exec step s).
    destruct (running_at (fst s) (clock (snd s))) eqn:Hrun.
    + rewrite (exec_unit _ _ (step_interpolates s Hrun)).
      destruct H as [He Hle]. split; [|exact Hle].
      unfold interpolated. cbn [snd trace]. apply eased_in_unit_app; [exact He|].
      intros p Hin. cbn [In] in Hin. destruct Hin as [Hin|[Hin|[]]]; [|discriminate Hin].
      injection Hin as <-. apply progress_in_unit; [|exact Hrun].
      apply Hle. rewrite Ht. discriminate.
    + rewrite (exec_step_completes s Hrun). apply run_inv_callChain.
      destruct H as [He _]. split; [|intro Hn; destruct (Hn eq_refl)].
      unfold completed. cbn [snd trace]. apply eased_in_unit_app; [exact He|].
      destruct (timer (fst s)); quiet.
  - rewrite exec_fires_idle by exact Ht. exact H.
Qed.

Lemma run_inv_elapse (d : N) (s : Sys) : run_inv s -> run_inv (exec (elapse d) s).
Proof.
  intros [He Ht]. split; [exact He|]. intro Hn. specialize (Ht Hn).
  unfold exec, elapse. cbn [fst snd clock]. lia.
Qed.

Lemma reachable_run_inv (s : Sys) : reachable s -> run_inv s.
Proof.
  induction 1 as [el opts t0 h0|s i _ IH].
  - split; [intros p []|intro Hn; destruct (Hn eq_refl)].
  - destruct i as [d| |c]; cbn [react].
    + apply run_inv_elapse, IH.
    + apply run_inv_fires, IH.
    + apply run_inv_call, IH.
Qed.

Lemma overshoot_reachable : reachable overshoot.
Proof. unfold overshoot, fresh. repeat apply reach_react. apply reach_construct. Qed.

(** ** Concrete runs *)

(** The example of the class documentation,
    [myFx.start(1,0).chain(function(){ this.start(0,1); })], with ticks
    20, 250 and 499 ms after the start and the completing one at 500 ms. *)
Example documented_run :
  trace (snd (exec (start 1 0 ;; chain [CStart 0 1] ;; ticks [20; 230; 249; 1]%N)
                (fresh linear_options))) =
  [Scheduled 1%positive 20; Fired onStart 7%nat None;
   Eased (20 # 500); Applied (480 # 500);
   Eased (250 # 500); Applied (250 # 500);
   Eased (499 # 500); Applied (1 # 500);
   Cleared 1%positive; Applied 0; Fired onComplete 7%nat (Some 10%Z);
   Called [CStart 0 1];
   Scheduled 2%positive 20; Fired onStart 7%nat None].
Proof. vm_compute. reflexivity. Qed.

(** [compute(0, 10)] at [delta = 0.5] is 5. *)
Example compute_midpoint :
  (fst (compute 0 10 (with_delta (1 # 2) (construct 7%nat linear_options),
                      mkWorld 0 1%positive [])) == 5)%Q.
Proof. vm_compute. reflexivity. Qed.

(** Under [wait], a second [start] during a run is dropped; [stop] then
    cancels the run, and a further [stop] does nothing. *)
Example waiting_run :
  trace (snd (exec (start 1 0 ;; start 3 4 ;; stop false ;; stop false)
                (fresh linear_options))) =
  [Scheduled 1%positive 20; Fired onStart 7%nat None;
   Cleared 1%positive; Fired onCancel 7%nat None].
Proof. vm_compute. reflexivity. Qed.

(** ** The theorems at concrete instances *)

Lemma stop_idle_noop_witness :
  timer (fst (fresh linear_options)) = None /\
  exec (stop false) (fresh linear_options) = fresh linear_options /\
  emitted (stop false) (fresh linear_options) = [].
Proof.
  split; [reflexivity|]. apply stop_idle_noop. reflexivity.
Defined.

Lemma start_waits_witness :
  wait (options (fst (busy linear_options))) = true /\
  timer (fst (busy linear_options)) = Some 1%positive /\
  exec (start 3 4) (busy linear_options) = busy linear_options /\
  emitted (start 3 4) (busy linear_options) = [].
Proof.
  split; [reflexivity|]. split; [reflexivity|].
  apply (@start_waits 3 4 (busy linear_options) 1%positive); reflexivity.
Defined.

Lemma start_preempts_run_witness :
  wait (options (fst (busy preempting_options))) = false /\
  timer (fst (busy preempting_options)) = Some 1%positive /\
  trace (snd (exec (start 3 4) (busy preempting_options))) =
  [Scheduled 1%positive 20; Fired onStart 7%nat None;
   Cleared 1%positive; Fired onCancel 7%nat None;
   Scheduled 2%positive 20; Fired onStart 7%nat None].
Proof.
  split; [reflexivity|]. split; [reflexivity|].
  change (busy preempting_options)
    with (fst (busy preempting_options), snd (busy preempting_options)).
  rewrite (@start_preempts_run 3 4 (fst (busy preempting_options))
             (snd (busy preempting_options)) 1%positive eq_refl eq_refl).
  reflexivity.
Defined.

Lemma cancel_or_complete_witness :
  timer (fst (busy linear_options)) = Some 1%positive /\
  emitted (stop false) (busy linear_options) =
  [Cleared 1%positive; Fired onCancel 7%nat None].
Proof.
  split; [reflexivity|].
  exact (proj1 (proj1 (@cancel_or_complete (fst (busy linear_options))
                         (snd (busy linear_options)) 1%positive eq_refl))).
Defined.

Lemma chained_start_is_accepted_witness :
  timer (fst due) = Some 1%positive /\
  running_at (fst due) (clock (snd due)) = false /\
  chains (fst due) = [[CStart 0 1]] /\
  timer (fst (completed due)) = None.
Proof.
  split; [reflexivity|]. split; [reflexivity|]. split; [reflexivity|].
  exact (proj1 (proj2 (proj2 (@chained_start_is_accepted 0 1 [] [] (fst due) (snd due)
                                1%positive eq_refl eq_refl eq_refl)))).
Defined.

Lemma completion_is_exact_witness :
  accepts (fresh linear_options) = true /\
  (inject_Z (Z.of_N (total [20; 20]%N)) < duration (options (fst (fresh linear_options))))%Q /\
  (duration (options (fst (fresh linear_options)))
   <= inject_Z (Z.of_N (total [20; 20]%N + 460)))%Q /\
  to (fst (exec (start 0 1 ;; ticks [20; 20]%N) (fresh linear_options))) = 1.
Proof.
  assert (H1 : accepts (fresh linear_options) = true) by reflexivity.
  assert (H2 : (inject_Z (Z.of_N (total [20; 20]%N))
                < duration (options (fst (fresh linear_options))))%Q) by reflexivity.
  assert (H3 : (duration (options (fst (fresh linear_options)))
                <= inject_Z (Z.of_N (total [20; 20]%N + 460)))%Q)
    by (vm_compute; discriminate).
  split; [exact H1|]. split; [exact H2|]. split; [exact H3|].
  exact (proj1 (@completion_is_exact 0 1 [20; 20]%N 460%N (fresh linear_options) H1 H2 H3)).
Defined.

Lemma interpolation_is_linear_witness :
  (inject_Z (clock (snd (exec (elapse 100) (busy linear_options))))
   < inject_Z (time (fst (busy linear_options))) + duration linear_options)%Q /\
  delta (fst (exec step (exec (elapse 100) (busy linear_options)))) =
  (inject_Z 1100 - inject_Z 1000) / 500.
Proof.
  assert (H : (inject_Z (clock (snd (exec (elapse 100) (busy linear_options))))
               < inject_Z (time (fst (busy linear_options))) + duration linear_options)%Q)
    by reflexivity.
  split; [exact H|].
  exact (proj1 (proj2 interpolation_is_linear (exec (elapse 100) (busy linear_options)) H)).
Defined.

Lemma change_is_write_only_witness :
  forget_change (with_change 9 (fst (busy linear_options)), snd (busy linear_options)) =
  forget_change (busy linear_options) /\
  forget_change
    (exec (perform OpStep)
       (with_change 9 (fst (busy linear_options)), snd (busy linear_options))) =
  forget_change (exec (perform OpStep) (busy linear_options)).
Proof.
  split; [reflexivity|].
  exact (proj2 change_is_write_only OpStep
           (with_change 9 (fst (busy linear_options)), snd (busy linear_options))
           (busy linear_options) eq_refl).
Defined.

(** ** Invariants of every reachable state *)

Lemma stopped_idle (i : bool) (s : Sys) : timer (fst (stopped i s)) = None.
Proof.
  destruct s as [x w]. unfold stopped. cbn [fst snd].
  destruct (timer x) eqn:E; cbn [fst timer with_timer]; [reflexivity|exact E].
Qed.

(** To show that a property holds in every reachable state it is enough
    to show that each elementary effect of the methods keeps it. *)
Section Invariant.

Variable P : Sys -> Prop.

Hypothesis P_construct :
  forall el opts t0 h0, P (construct el opts, mkWorld t0 h0 []).
Hypothesis P_elapse : forall d s, P s -> P (exec (elapse d) s).
Hypothesis P_stopped : forall i s, P s -> P (stopped i s).
Hypothesis P_started :
  forall a b s, timer (fst s) = None -> P s -> P (started a b s).
Hypothesis P_set : forall v s, P s -> P (exec (set v) s).
Hypothesis P_chain : forall fn s, P s -> P (exec (chain fn) s).
Hypothesis P_interpolated :
  forall s, timer (fst s) <> None -> P s -> P (interpolated s).
Hypothesis P_completed :
  forall s, timer (fst s) <> None -> P s -> P (completed s).
Hypothesis P_called :
  forall s fn rest,
    chains (fst s) = fn :: rest -> P s ->
    P (with_chains rest (fst s),
       mkWorld (clock (snd s)) (next_handle (snd s)) (trace (snd s) ++ [Called fn])).

Lemma kept_by_call (c : call) (s : Sys) : P s -> P (exec (run_call c) s).
Proof.
  intro H. destruct c as [a b|i|v|fn]; cbn [run_call].
  - destruct (accepts s) eqn:Hacc.
    + rewrite (exec_unit _ _ (start_accepts a b s Hacc)).
      apply P_started; [apply stopped_idle|apply P_stopped, H].
    + rewrite (exec_unit _ _ (start_rejects a b s Hacc)). exact H.
  - rewrite (exec_unit _ _ (stop_stopped i s)). apply P_stopped, H.
  - apply P_set, H.
  - apply P_chain, H.
Qed.

Lemma kept_by_action (fn : action) : forall s, P s -> P (exec (run_action fn) s).
Proof.
  induction fn as [|c fn IH]; intros s H; cbn [run_action].
  - exact H.
  - rewrite exec_bind. apply IH, kept_by_call, H.
Qed.

Lemma kept_by_fires (s : Sys) : P s -> P (exec fires s).
Proof.
  intro H. destruct (timer (fst s)) as [h|] eqn:Ht.
  - assert (Hn : timer (fst s) <> None) by (rewrite Ht; discriminate).
    unfold exec at 1. rewrite (fires_step s Ht). fold (exec step s).
    destruct (running_at (fst s) (clock (snd s))) eqn:Hrun.
    + rewrite (exec_unit _ _ (step_interpolates s Hrun)). apply P_interpolated; assumption.
    + rewrite (exec_step_completes s Hrun).
      pose proof (P_completed Hn H) as Hc.
      destruct (chains (fst (completed s))) as [|fn rest] eqn:Hch.
      * rewrite (exec_unit _ _ (callChain_empty (completed s) Hch)). exact Hc.
      * unfold exec. rewrite (callChain_next (completed s) Hch).
        apply kept_by_action, P_called; assumption.
  - rewrite exec_fires_idle by exact Ht. exact H.
Qed.

Lemma kept_by_react (i : input) (s : Sys) : P s -> P (exec (react i) s).
Proof.
  intro H. destruct i as [d| |c]; cbn [react].
  - apply P_elapse, H.
  - apply kept_by_fires, H.
  - apply kept_by_call, H.
Qed.

Lemma kept_when_reachable (s : Sys) : reachable s -> P s.
Proof.
  induction 1 as [el opts t0 h0|s i _ IH].
  - apply P_construct.
  - apply kept_by_react, IH.
Qed.

End Invariant.

Lemma fired_app (e : event) (tr1 tr2 : list obs) :
  fired e (tr1 ++ tr2) = (fired e tr1 + fired e tr2)%nat.
Proof. unfold fired. rewrite filter_app, length_app. reflexivity. Qed.

Lemma applied_app (tr1 tr2 : list obs) :
  applied (tr1 ++ tr2) = (applied tr1 + applied tr2)%nat.
Proof. unfold applied. rewrite filter_app, length_app. reflexivity. Qed.

Lemma live_app (tr e : list obs) : live (tr ++ e) = fold_left track e (live tr).
Proof. unfold live. apply fold_left_app. Qed.

Lemma exec_set (v : Q) (s : Sys) :
  exec (set v) s =
  (with_now v (fst s),
   mkWorld (clock (snd s)) (next_handle (snd s))
     (trace (snd s) ++ [Applied v; Fired onSet (element (fst s)) None])).
Proof. apply exec_unit, set_eq. Qed.

Lemma exec_chain (fn : action) (s : Sys) :
  exec (chain fn) s = (with_chains (chains (fst s) ++ [fn]) (fst s), snd s).
Proof. apply exec_unit, chain_eq. Qed.

(** X1.  In every reachable state the timers the instance has scheduled
    and not cleared are exactly the one in [this.timer], if any: [start]
    never installs a second timer beside a live one, and no timer is left
    installed once [this.timer] is cleared. *)
Theorem one_timer_at_most (s : Sys) :
  reachable s -> live (trace (snd s)) = timer_list (timer (fst s)).
Proof.
  apply (@kept_when_reachable owns_timers); unfold owns_timers.
  - reflexivity.
  - intros d s0 H. exact H.
  - intros i [x w]. unfold stopped. cbn [fst snd]. intro H.
    destruct (timer x) as [h|] eqn:Ht; cbn [fst snd trace timer with_timer].
    + rewrite live_app, H. destruct i; cbn [fold_left track timer_list filter];
        rewrite Pos.eqb_refl; reflexivity.
    + rewrite Ht. exact H.
  - intros a b [x w] Ht H. cbn [fst snd] in *. unfold started.
    cbn [fst snd trace timer]. rewrite live_app, H, Ht. reflexivity.
  - intros v s0 H. rewrite exec_set. cbn [fst snd trace timer with_now].
    rewrite live_app, H. reflexivity.
  - intros fn s0 H. rewrite exec_chain. exact H.
  - intros s0 _ H. unfold interpolated. cbn [fst snd trace timer with_now with_delta].
    rewrite live_app, H. reflexivity.
  - intros [x w] Hn H. cbn [fst snd] in *. unfold completed.
    cbn [fst snd trace timer with_now with_timer].
    rewrite live_app, H. destruct (timer x) as [h|]; [|destruct (Hn eq_refl)].
    cbn [cleared app fold_left track timer_list filter]. rewrite Pos.eqb_refl. reflexivity.
  - intros s0 fn rest _ H. cbn [fst snd trace timer with_chains].
    rewrite live_app, H. reflexivity.
Qed.

(** X2.  In every reachable state the runs completed, the runs cancelled
    and the run in progress together never outnumber the [onStart] events:
    [onComplete] and [onCancel] are fired only for a run that was started,
    and at most one of them for each. *)
Theorem events_are_accounted (s : Sys) :
  reachable s ->
  (fired onComplete (trace (snd s)) + fired onCancel (trace (snd s)) + running s
   <= fired onStart (trace (snd s)))%nat.
Proof.
  apply (@kept_when_reachable accounted); unfold accounted, running.
  - intros. cbn. lia.
  - intros d s0 H. exact H.
  - intros i [x w]. unfold stopped. cbn [fst snd]. intro H.
    destruct (timer x) as [h|] eqn:Ht; cbn [fst snd trace timer with_timer].
    + rewrite !fired_app. destruct i; cbn; lia.
    + rewrite Ht. exact H.
  - intros a b [x w] Ht H. cbn [fst snd] in *. rewrite Ht in H. unfold started.
    cbn [fst snd trace timer]. rewrite !fired_app. cbn. lia.
  - intros v s0 H. rewrite exec_set. cbn [fst snd trace timer with_now].
    rewrite !fired_app. cbn. lia.
  - intros fn s0 H. rewrite exec_chain. exact H.
  - intros s0 _ H. unfold interpolated. cbn [fst snd trace timer with_now with_delta].
    rewrite !fired_app. cbn. lia.
  - intros [x w] Hn H. cbn [fst snd] in *. unfold completed.
    cbn [fst snd trace timer with_now with_timer].
    rewrite !fired_app. destruct (timer x) as [h|]; [|destruct (Hn eq_refl)]. cbn. lia.
  - intros s0 fn rest _ H. cbn [fst snd trace timer with_chains].
    rewrite !fired_app. cbn. lia.
Qed.

(** X3.  Once a run was started, the cached [change] equals [to - from] in
    every reachable state: only an accepted [start] writes [from], [to]
    and [change], and it writes the three together. *)
Theorem change_is_never_stale (s : Sys) :
  reachable s ->
  fired onStart (trace (snd s)) <> 0%nat ->
  change (fst s) = (to (fst s) - from (fst s))%Q.
Proof.
  apply (@kept_when_reachable change_cached); unfold change_cached.
  - intros el opts t0 h0 H. destruct (H eq_refl).
  - intros d s0 H. exact H.
  - intros i [x w]. unfold stopped. cbn [fst snd]. intro H.
    destruct (timer x) as [h|] eqn:Ht; [|exact H].
    cbn [fst snd trace change to from with_timer]. rewrite fired_app.
    intro Hs. apply H. destruct i; cbn in Hs; lia.
  - intros a b s0 _ _ _. reflexivity.
  - intros v s0 H. rewrite exec_set. cbn [fst snd trace change to from with_now].
    rewrite fired_app. intro Hs. apply H. cbn in Hs. lia.
  - intros fn s0 H. rewrite exec_chain. exact H.
  - intros s0 _ H. unfold interpolated. cbn [fst snd trace change to from with_now with_delta].
    rewrite fired_app. intro Hs. apply H. cbn in Hs. lia.
  - intros [x w] _ H. cbn [fst snd] in *. unfold completed.
    cbn [fst snd trace change to from with_now with_timer].
    rewrite !fired_app. intro Hs. apply H. destruct (timer x); cbn in Hs; lia.
  - intros s0 fn rest _ H. cbn [fst snd trace change to from with_chains].
    rewrite fired_app. intro Hs. apply H. cbn in Hs. lia.
Qed.

(** ** How the methods compose *)

Lemma exec_stop (i : bool) (s : Sys) : exec (stop i) s = stopped i s.
Proof. apply exec_unit, stop_stopped. Qed.

Lemma stopped_out (i : bool) (s : Sys) :
  exists e,
    stopped i s =
    (with_timer None (fst s),
     mkWorld (clock (snd s)) (next_handle (snd s)) (trace (snd s) ++ e)) /\
    fired onStart e = 0%nat /\ fired onComplete e = 0%nat /\ applied e = 0%nat /\
    (i = true -> fired onCancel e = 0%nat).
Proof.
  destruct s as [x w]. unfold stopped. cbn [fst snd].
  destruct (timer x) as [h|] eqn:Ht.
  - eexists. split; [reflexivity|]. destruct i; repeat split; discriminate.
  - exists []. rewrite app_nil_r. split; [|repeat split].
    destruct x, w. cbn in Ht. subst. reflexivity.
Qed.

(** X4.  [stop] only clears the timer: [from], [to], [change], [time],
    [delta], [now] and the chain stay as the interrupted run left them (a
    cancelled run does not jump to its target); and stopping twice is
    stopping once, so the second [stop] fires nothing. *)
Theorem stop_freezes_the_run (i j : bool) (s : Sys) :
  with_timer (timer (fst s)) (fst (exec (stop i) s)) = fst s /\
  timer (fst (exec (stop i) s)) = None /\
  exec (stop i ;; stop j) s = exec (stop i) s.
Proof.
  split; [|split].
  - rewrite exec_stop. destruct s as [x w]. unfold stopped. cbn [fst snd].
    destruct x as [el op fr t ch tm dl nw [h|] cs]; reflexivity.
  - rewrite exec_stop. apply stopped_idle.
  - rewrite exec_bind, (exec_stop i). apply exec_unit, stop_when_idle, stopped_idle.
Qed.

(** X5.  [stop(true)] followed by [start(a, b)], the restart of the class
    documentation, is accepted in every state and under either policy: the
    new run has [from = a] and [to = b], [onStart] is fired once and
    [onCancel] not at all. *)
Theorem silent_restart (a b : Q) (s : Sys) :
  let r := stop true ;; start a b in
  exec r s = started a b (stopped true s) /\
  from (fst (exec r s)) = a /\ to (fst (exec r s)) = b /\
  timer (fst (exec r s)) = Some (next_handle (snd s)) /\
  fired onStart (emitted r s) = 1%nat /\ fired onCancel (emitted r s) = 0%nat.
Proof.
  intro r.
  assert (E : exec r s = started a b (stopped true s)).
  { subst r. rewrite exec_bind, exec_stop. apply exec_start_idle, stopped_idle. }
  split; [exact E|]. rewrite E.
  destruct (stopped_out true s) as (e & Es & Hs & _ & _ & Hc).
  assert (Ee : emitted r s =
               e ++ [Scheduled (next_handle (snd s))
                       (Math_round (1000 / fps (options (fst s))));
                     Fired onStart (element (fst s)) None]).
  { apply emitted_app. rewrite E, Es. unfold started.
    cbn [fst snd trace next_handle options element with_timer]. rewrite <- app_assoc.
    reflexivity. }
  rewrite Ee, !fired_app, Hs, (Hc eq_refl), Es. repeat split.
Qed.

(** X6.  Under [wait = true] a [start] directly after a [start] is always
    dropped: either the first request began a run, which the second finds
    in progress, or a run was already in progress and both are dropped. *)
Theorem second_start_is_dropped (a b c d : Q) (s : Sys) :
  wait (options (fst s)) = true ->
  exec (start a b ;; start c d) s = exec (start a b) s.
Proof.
  intro Hw. rewrite exec_bind. destruct (accepts s) eqn:Hacc.
  - rewrite (exec_unit _ _ (start_accepts a b s Hacc)).
    apply exec_unit. apply start_rejected with (h := next_handle (snd (stopped false s))).
    + destruct (stopped_out false s) as (e & -> & _). exact Hw.
    + reflexivity.
  - rewrite (exec_unit _ _ (start_rejects a b s Hacc)).
    apply exec_unit, start_rejects, Hacc.
Qed.

(** X7.  On an idle instance [start(a, b)] is accepted under either
    policy and does the same: nothing is cleared or cancelled, one timer
    is scheduled, [onStart] is fired, and [time] is the current clock. *)
Theorem idle_start_ignores_wait (a b : Q) (s : Sys) :
  timer (fst s) = None ->
  emitted (start a b) s =
  [Scheduled (next_handle (snd s)) (Math_round (1000 / fps (options (fst s))));
   Fired onStart (element (fst s)) None] /\
  fst (exec (start a b) s) =
  with_timer (Some (next_handle (snd s)))
    (with_time (clock (snd s))
       (with_change (b - a) (with_to b (with_from a (fst s))))).
Proof.
  intro Ht. split.
  - apply emitted_app. rewrite (exec_start_idle a b s Ht). reflexivity.
  - rewrite (exec_start_idle a b s Ht). reflexivity.
Qed.

(** X8.  [set(v)] neither stops nor starts a run: the timer stays as it
    was, and [v] is applied and [onSet] fired.  During a run the next tick
    overwrites the value: the instance it leaves is the one it would have
    left without the [set] (inside the duration, or at completion with
    nothing chained). *)
Theorem set_is_overwritten (v : Q) (d : N) (s : Sys) (h : handle) :
  timer (fst s) = Some h ->
  running_at (fst s) (clock (snd s) + Z.of_N d) = true \/ chains (fst s) = [] ->
  timer (fst (exec (set v) s)) = Some h /\
  emitted (set v) s = [Applied v; Fired onSet (element (fst s)) None] /\
  fst (exec (set v ;; tick d) s) = fst (exec (tick d) s).
Proof.
  intros Ht Hor. rewrite exec_bind, exec_set.
  split; [exact Ht|]. split; [apply emitted_app; rewrite exec_set; reflexivity|].
  destruct s as [x w]. cbn [fst snd] in *.
  unfold tick. rewrite !exec_bind. unfold exec at 2 4, elapse. cbn [fst snd].
  unfold exec. rewrite !(@fires_step (_, _) h) by exact Ht.
  destruct (running_at x (clock w + Z.of_N d)) eqn:Hrun.
  - rewrite !step_interpolates by exact Hrun. reflexivity.
  - destruct Hor as [Hor|Hch]; [discriminate|].
    rewrite !step_completes by exact Hrun.
    rewrite !callChain_empty by exact Hch. reflexivity.
Qed.

(** ** A whole run *)

Lemma ticks_idle (ds : list N) :
  forall s,
    timer (fst s) = None ->
    exec (ticks ds) s =
    (fst s, mkWorld (clock (snd s) + Z.of_N (total ds)) (next_handle (snd s))
              (trace (snd s))).
Proof.
  induction ds as [|d ds IH]; intros [x w] Ht; cbn [fst snd] in *.
  - cbn [ticks total fold_right Z.of_N]. rewrite Z.add_0_r. destruct w. reflexivity.
  - cbn [ticks]. rewrite exec_bind. unfold tick. rewrite exec_bind.
    unfold exec at 3, elapse. cbn [fst snd].
    rewrite exec_fires_idle by exact Ht. rewrite IH by exact Ht.
    cbn [fst snd clock next_handle trace total fold_right]. fold (total ds).
    rewrite N2Z.inj_add, Z.add_assoc. reflexivity.
Qed.

Lemma fired_frames (e : event) (x : Fx) (ds : list N) :
  forall t, fired e (frames x t ds) = 0%nat.
Proof.
  induction ds as [|d ds IH]; intro t; [reflexivity|].
  cbn [frames]. unfold fired. cbn [filter fires_of]. apply IH.
Qed.

Lemma applied_frames (x : Fx) (ds : list N) :
  forall t, applied (frames x t ds) = length ds.
Proof.
  induction ds as [|d ds IH]; intro t; [reflexivity|].
  cbn [frames]. unfold applied. cbn [filter is_applied length]. f_equal. apply IH.
Qed.

(** X9.  A whole run with nothing chained: [start(a, b)] is accepted,
    the ticks [ds] fall inside the duration, the next one finds it reached,
    and the timer is asked to go on ([more]).  The run fires [onStart] once
    and [onComplete] once, hands the apply hook one value per tick inside
    the duration and the target once, and ends idle with [now = b]: after
    completion no tick does anything. *)
Theorem run_completes_once
    (a b : Q) (ds more : list N) (d : N) (s : Sys) :
  accepts s = true ->
  chains (fst s) = [] ->
  (inject_Z (Z.of_N (total ds)) < duration (options (fst s)))%Q ->
  (duration (options (fst s)) <= inject_Z (Z.of_N (total ds + d)))%Q ->
  let run := start a b ;; ticks ds ;; tick d in
  fired onStart (emitted run s) = 1%nat /\
  fired onComplete (emitted run s) = 1%nat /\
  applied (emitted run s) = S (length ds) /\
  timer (fst (exec run s)) = None /\
  now (fst (exec run s)) = b /\
  fst (exec (run ;; ticks more) s) = fst (exec run s) /\
  emitted (run ;; ticks more) s = emitted run s.
Proof.
  intros Hacc Hch Hpre Hpost run.
  destruct (stopped_out false s) as (e0 & Es & Hs0 & Hc0 & Ha0 & _).
  set (x1 := fst (started a b (stopped false s))).
  set (w1 := snd (started a b (stopped false s))).
  assert (Ht1 : timer x1 = Some (next_handle (snd s))) by (subst x1; rewrite Es; reflexivity).
  assert (Hrun1 : running_at x1 (clock w1 + Z.of_N (total ds)) = true).
  { apply run_inside; [subst x1 w1; rewrite Es; reflexivity|].
    subst x1. rewrite Es. exact Hpre. }
  destruct (@ticks_interpolate ds x1 w1 _ Ht1 Hrun1) as (dl & v & E).
  set (x2 := with_now v (with_delta dl x1)) in E.
  set (w2 := mkWorld (clock w1 + Z.of_N (total ds)) (next_handle w1)
               (trace w1 ++ frames x1 (clock w1) ds)) in E.
  assert (Hrun2 : running_at x2 (clock w2 + Z.of_N d) = false).
  { subst x2 w2. cbn [clock]. rewrite <- Z.add_assoc, <- N2Z.inj_add.
    apply run_over; [subst x1 w1; rewrite Es; reflexivity|].
    subst x1. rewrite Es. exact Hpost. }
  assert (Erun : exec run s =
                 (with_now b (with_timer None x2),
                  mkWorld (clock w2 + Z.of_N d) (next_handle w2)
                    (trace w2 ++ [Cleared (next_handle (snd s)); Applied b;
                                  Fired onComplete (element (fst s)) (Some 10%Z)]))).
  { subst run. rewrite !exec_bind. rewrite (exec_unit _ _ (start_accepts a b s Hacc)).
    change (started a b (stopped false s)) with (x1, w1).
    rewrite (exec_unit _ _ E).
    unfold exec. rewrite (@tick_completes d x2 w2 (next_handle (snd s)) Ht1 Hrun2).
    rewrite callChain_empty
      by (unfold completed, exec, elapse; subst x2 x1; rewrite Es; exact Hch).
    unfold completed, exec, elapse. subst x2 x1. rewrite Es. reflexivity. }
  assert (Eout : emitted run s =
                 e0 ++ [Scheduled (next_handle (snd s))
                          (Math_round (1000 / fps (options (fst s))));
                        Fired onStart (element (fst s)) None]
                    ++ frames x1 (clock w1) ds
                    ++ [Cleared (next_handle (snd s)); Applied b;
                        Fired onComplete (element (fst s)) (Some 10%Z)]).
  { apply emitted_app. rewrite Erun. subst w2 w1. rewrite Es. unfold started.
    cbn [fst snd trace clock next_handle options element with_timer].
    rewrite <- !app_assoc. reflexivity. }
  assert (Emore : exec (run ;; ticks more) s =
                  (fst (exec run s),
                   mkWorld (clock (snd (exec run s)) + Z.of_N (total more))
                     (next_handle (snd (exec run s))) (trace (snd (exec run s))))).
  { rewrite exec_bind. apply ticks_idle. rewrite Erun. reflexivity. }
  rewrite Eout, !fired_app, !applied_app, !fired_frames, applied_frames, Hs0, Hc0, Ha0.
  split; [reflexivity|]. split; [reflexivity|].
  split; [cbn; lia|]. split; [rewrite Erun; reflexivity|].
  split; [rewrite Erun; reflexivity|]. split; [rewrite Emore; reflexivity|].
  unfold emitted at 1. rewrite Emore. cbn [snd trace]. fold (emitted run s).
  exact Eout.
Qed.

(** ** The numbers *)



(** ** The further theorems at concrete instances *)

Lemma one_timer_at_most_witness :
  reachable overshoot /\
  live (trace (snd overshoot)) = timer_list (timer (fst overshoot)).
Proof.
  split; [exact overshoot_reachable|].
  exact (one_timer_at_most overshoot_reachable).
Defined.

Lemma events_are_accounted_witness :
  reachable overshoot /\
  (fired onComplete (trace (snd overshoot)) + fired onCancel (trace (snd overshoot))
   + running overshoot <= fired onStart (trace (snd overshoot)))%nat.
Proof.
  split; [exact overshoot_reachable|].
  exact (events_are_accounted overshoot_reachable).
Defined.

Lemma change_is_never_stale_witness :
  reachable overshoot /\
  fired onStart (trace (snd overshoot)) <> 0%nat /\
  change (fst overshoot) = (to (fst overshoot) - from (fst overshoot))%Q.
Proof.
  assert (H : fired onStart (trace (snd overshoot)) <> 0%nat) by (vm_compute; discriminate).
  split; [exact overshoot_reachable|]. split; [exact H|].
  exact (change_is_never_stale overshoot_reachable H).
Defined.

Lemma second_start_is_dropped_witness :
  wait (options (fst (fresh linear_options))) = true /\
  exec (start 1 0 ;; start 3 4) (fresh linear_options) =
  exec (start 1 0) (fresh linear_options).
Proof.
  split; [reflexivity|].
  apply (@second_start_is_dropped 1 0 3 4 (fresh linear_options)). reflexivity.
Defined.

Lemma idle_start_ignores_wait_witness :
  timer (fst (fresh preempting_options)) = None /\
  emitted (start 1 0) (fresh preempting_options) =
  [Scheduled 1%positive 20; Fired onStart 7%nat None].
Proof.
  split; [reflexivity|].
  exact (proj1 (@idle_start_ignores_wait 1 0 (fresh preempting_options) eq_refl)).
Defined.

Lemma set_is_overwritten_witness :
  timer (fst (busy linear_options)) = Some 1%positive /\
  running_at (fst (busy linear_options))
    (clock (snd (busy linear_options)) + Z.of_N 100) = true /\
  fst (exec (set 9 ;; tick 100) (busy linear_options)) =
  fst (exec (tick 100) (busy linear_options)).
Proof.
  split; [reflexivity|]. split; [reflexivity|].
  exact (proj2 (proj2 (@set_is_overwritten 9 100%N (busy linear_options) 1%positive
                         eq_refl (or_introl eq_refl)))).
Defined.

Lemma run_completes_once_witness :
  accepts (fresh linear_options) = true /\
  chains (fst (fresh linear_options)) = [] /\
  (inject_Z (Z.of_N (total [20; 20]%N)) < duration (options (fst (fresh linear_options))))%Q /\
  (duration (options (fst (fresh linear_options)))
   <= inject_Z (Z.of_N (total [20; 20]%N + 460)))%Q /\
  fired onComplete
    (emitted (start 1 0 ;; ticks [20; 20]%N ;; tick 460) (fresh linear_options)) = 1%nat.
Proof.
  assert (H3 : (inject_Z (Z.of_N (total [20; 20]%N))
                < duration (options (fst (fresh linear_options))))%Q) by reflexivity.
  assert (H4 : (duration (options (fst (fresh linear_options)))
                <= inject_Z (Z.of_N (total [20; 20]%N + 460)))%Q)
    by (vm_compute; discriminate).
  split; [reflexivity|]. split; [reflexivity|]. split; [exact H3|]. split; [exact H4|].
  exact (proj1 (proj2 (@run_completes_once 1 0 [20; 20]%N [20]%N 460%N
                         (fresh linear_options) eq_refl eq_refl H3 H4))).
Defined.



(** ** What no method touches *)

(** X15.  Nothing that can happen to an instance changes its [options]
    or its [element]: they are read, never assigned, after construction. *)
Theorem options_are_read_only (i : input) (s : Sys) :
  options (fst (exec (react i) s)) = options (fst s) /\
  element (fst (exec (react i) s)) = element (fst s).
Proof.
  apply (@kept_by_react
           (fun s' => options (fst s') = options (fst s) /\
                      element (fst s') = element (fst s))).
  - intros d s0 H. exact H.
  - intros j [x w] H. unfold stopped. cbn [fst snd] in *. destruct (timer x); exact H.
  - intros a b s0 _ H. exact H.
  - intros v s0 H. rewrite exec_set. exact H.
  - intros fn s0 H. rewrite exec_chain. exact H.
  - intros s0 _ H. exact H.
  - intros s0 _ H. exact H.
  - intros s0 fn rest _ H. exact H.
  - split; reflexivity.
Qed.

Ltac fired_cases H :=
  cbn [In app] in H;
  repeat (destruct H as [H|H];
          [try discriminate H; injection H as <- <- <-; split; reflexivity|]);
  destruct H.

(** X16.  In every reachable state, every event that was fired carried
    the instance's element as payload, and [onComplete], and no other
    event, was fired with a delay, of 10 ms. *)
Theorem events_carry_the_element (s : Sys) (e : event) (p : Element) (dl : option Z) :
  reachable s ->
  In (Fired e p dl) (trace (snd s)) ->
  p = element (fst s) /\ dl = delay_of e.
Proof.
  intro Hs. revert e p dl. change (well_fired s). revert s Hs.
  apply (@kept_when_reachable well_fired); unfold well_fired.
  - intros el opts t0 h0 e p dl [].
  - intros d s0 H. exact H.
  - intros i [x w] H. unfold stopped. cbn [fst snd] in *.
    destruct (timer x) as [h|]; [|exact H].
    cbn [fst snd trace element with_timer]. intros e p dl Hin.
    apply in_app_iff in Hin. destruct Hin as [Hin|Hin]; [exact (H _ _ _ Hin)|].
    destruct i; fired_cases Hin.
  - intros a b [x w] _ H. unfold started. cbn [fst snd trace element] in *.
    intros e p dl Hin.
    apply in_app_iff in Hin. destruct Hin as [Hin|Hin]; [exact (H _ _ _ Hin)|].
    fired_cases Hin.
  - intros v [x w] H. rewrite exec_set. cbn [fst snd trace element with_now] in *.
    intros e p dl Hin.
    apply in_app_iff in Hin. destruct Hin as [Hin|Hin]; [exact (H _ _ _ Hin)|].
    fired_cases Hin.
  - intros fn s0 H. rewrite exec_chain. exact H.
  - intros [x w] _ H. unfold interpolated.
    cbn [fst snd trace element with_now with_delta] in *.
    intros e p dl Hin.
    apply in_app_iff in Hin. destruct Hin as [Hin|Hin]; [exact (H _ _ _ Hin)|].
    fired_cases Hin.
  - intros [x w] _ H. unfold completed.
    cbn [fst snd trace element with_now with_timer] in *.
    intros e p dl Hin.
    apply in_app_iff in Hin. destruct Hin as [Hin|Hin]; [exact (H _ _ _ Hin)|].
    destruct (timer x); fired_cases Hin.
  - intros [x w] fn rest _ H. cbn [fst snd trace element with_chains] in *.
    intros e p dl Hin.
    apply in_app_iff in Hin. destruct Hin as [Hin|Hin]; [exact (H _ _ _ Hin)|].
    fired_cases Hin.
Qed.

Lemma events_carry_the_element_witness :
  reachable overshoot /\
  In (Fired onStart 7%nat None) (trace (snd overshoot)) /\
  7%nat = element (fst overshoot) /\ @None Z = delay_of onStart.
Proof.
  assert (H : In (Fired onStart 7%nat None) (trace (snd overshoot))).
  { vm_compute. right. left. reflexivity. }
  split; [exact overshoot_reachable|]. split; [exact H|].
  exact (@events_carry_the_element overshoot onStart 7%nat None overshoot_reachable H).
Defined.

(** ** The value of the transition *)

Lemma tick_interpolates (d : N) (s : Sys) (h : handle) :
  timer (fst s) = Some h ->
  running_at (fst s) (clock (snd s) + Z.of_N d) = true ->
  exec (tick d) s = interpolated (exec (elapse d) s).
Proof.
  destruct s as [x w]. cbn [fst snd]. intros Ht Hrun.
  unfold tick. rewrite exec_bind. unfold exec at 2 3, elapse. cbn [fst snd].
  unfold exec. rewrite (@fires_step (x, _) h Ht). rewrite step_interpolates by exact Hrun.
  reflexivity.
Qed.

Lemma poised_reachable : reachable poised.
Proof. unfold poised, fresh. repeat apply reach_react. apply reach_construct. Qed.

(** C7.  Whatever happens to an instance, every argument its transition
    is ever given is [elapsed / duration] with [0 <= elapsed < duration],
    so it lies in [0, 1] (and below 1).  The value the transition returns
    is not clamped: a tick inside the duration stores it in [delta] as it
    is and applies [(to - from) * delta + from].  So an overshooting ease
    takes [now] out of the range: there is a run whose [now] lies between
    [from] and [to] and whose next tick, on a transition value above 1,
    puts [now] above [to]. *)
Theorem easing_argument_in_unit_interval :
  (forall (s : Sys) (p : Q),
      reachable s -> In (Eased p) (trace (snd s)) -> (0 <= p <= 1)%Q /\ (p < 1)%Q) /\
  (forall (s : Sys) (h : handle) (d : N),
      timer (fst s) = Some h ->
      running_at (fst s) (clock (snd s) + Z.of_N d) = true ->
      let x := fst s in
      let p := progress x (clock (snd s) + Z.of_N d) in
      let s' := exec (tick d) s in
      delta (fst s') = transition (options x) p /\
      now (fst s') = ((to x - from x) * transition (options x) p + from x)%Q /\
      trace (snd s') = trace (snd s) ++ [Eased p; Applied (now (fst s'))]) /\
  (exists (s : Sys) (h : handle) (d : N),
      reachable s /\ timer (fst s) = Some h /\
      running_at (fst s) (clock (snd s) + Z.of_N d) = true /\
      (from (fst s) <= now (fst s) <= to (fst s))%Q /\
      (1 < transition (options (fst s)) (progress (fst s) (clock (snd s) + Z.of_N d)))%Q /\
      (to (fst s) < now (fst (exec (tick d) s)))%Q).
Proof.
  split; [|split].
  - intros s p Hs Hin. exact (proj1 (reachable_run_inv Hs) p Hin).
  - intros s h d Ht Hrun x p s'. subst s'. rewrite (tick_interpolates d s Ht Hrun).
    repeat split.
  - exists poised, 1%positive, 200%N. split; [exact poised_reachable|].
    split; [reflexivity|]. split; [reflexivity|].
    split; [vm_compute; split; discriminate|]. split; [reflexivity|].
    rewrite (@tick_interpolates 200%N poised 1%positive eq_refl eq_refl). reflexivity.
Qed.

Lemma easing_argument_in_unit_interval_witness :
  reachable poised /\
  In (Eased (50 # 500)) (trace (snd poised)) /\
  ((0 <= 50 # 500 <= 1)%Q /\ (50 # 500 < 1)%Q).
Proof.
  assert (H : In (Eased (50 # 500)) (trace (snd poised))).
  { vm_compute. right. right. left. reflexivity. }
  split; [exact poised_reachable|]. split; [exact H|].
  exact (proj1 easing_argument_in_unit_interval poised (50 # 500) poised_reachable H).
Defined.

(** ** The chain is drained in queue order *)

















End Fx.
